(** * movies-center/entertainment_center.py

    The script builds six [media.Movie] objects from string literals, binds
    each to a module-level name, collects them in the list [movies] and hands
    that list to [fresh_tomatoes.open_movies_page].

    The development models the script as a sequence of statements run on an
    explicit interpreter state: the module namespace (a finite map from names
    to values), the object heap (objects are referred to by address, as in
    Python) and the trace of calls made to the external renderer.

    The two [import] statements only make the modules [media] and
    [fresh_tomatoes] reachable; what the script uses of them, [media.Movie]
    and [fresh_tomatoes.open_movies_page], are the two collaborators below. *)

From Stdlib Require Import String List Lia.
From stdpp Require Import base option list strings gmap fin_maps.

Local Open Scope string_scope.
Local Open Scope nat_scope.
Local Open Scope list_scope.

(** ** Values, objects and exceptions *)

Set Warnings "-register-all".

(** Python values as far as the script uses them. A string is immutable and is
    carried by value; a [Movie] instance is carried by reference. *)
Inductive value : Type :=
  | VNone
  | VStr (s : string)
  | VRef (r : nat)
  | VList (l : list value).

(** Modelled from the spec: the class [media.Movie] lives in [media.py], which
    is not part of the sources at hand. The data model gives an instance the
    four attributes below; the constructor stores what it is handed and does
    not validate it, so an attribute holds an arbitrary value. *)
Record Movie : Type := mkMovie {
  title : value;
  storyline : value;
  poster_image_url : value;
  trailer_youtube_url : value
}.

Inductive exn : Type :=
  | NameError (x : string)
  | InvalidMovieData.

(** One call of [fresh_tomatoes.open_movies_page]: the argument it received and
    the heap as it stood when the call was made. *)
Record event : Type := OpenMoviesPage {
  ev_arg : value;
  ev_heap : list Movie
}.

Record state : Type := mkState {
  globals : gmap string value;
  heap : list Movie;
  trace : list event
}.

(** ** The interpreter monad: state passing with exceptions *)

Inductive result (A : Type) : Type :=
  | Ok (a : A)
  | Raise (e : exn).
Arguments Ok {A} a.
Arguments Raise {A} e.

Definition M (A : Type) : Type := state -> result (A * state).

#[global] Instance M_ret : MRet M := λ A a s, Ok (a, s).

#[global] Instance M_bind : MBind M := λ A B f m s,
  match m s with
  | Ok (a, s') => f a s'
  | Raise e => Raise e
  end.

Definition raise {A : Type} (e : exn) : M A := λ _, Raise e.

(** Name lookup in the module namespace. *)
Definition name (x : string) : M value := λ s,
  match globals s !! x with
  | Some v => Ok (v, s)
  | None => Raise (NameError x)
  end.

Definition set_global (x : string) (v : value) : M unit := λ s,
  Ok (tt, mkState (<[x := v]> (globals s)) (heap s) (trace s)).

(** [x = e] at module level. *)
Definition assign (x : string) (e : M value) : M unit :=
  v ← e; set_global x v.

(** A list display [[e1, ..., en]]: the items are evaluated left to right. *)
Fixpoint list_items (es : list (M value)) : M (list value) :=
  match es with
  | [] => mret []
  | e :: es' => v ← e; vs ← list_items es'; mret (v :: vs)
  end.

Definition list_display (es : list (M value)) : M value :=
  vs ← list_items es; mret (VList vs).

(** Allocation of a fresh object: it takes the next free address. *)
Definition alloc (m : Movie) : M value := λ s,
  Ok (VRef (length (heap s)), mkState (globals s) (heap s ++ [m]) (trace s)).

(** ** The two collaborators *)

(** Modelled from the spec: the parameters of the constructor of [media.Movie]
    ([media.py] is absent), in positional order. *)
Definition Movie_params : list string :=
  ["title"; "storyline"; "poster_image_url"; "trailer_youtube_url"].

(** The call protocol: positional arguments fill the parameters from the left;
    more arguments than parameters cannot be bound. *)
Fixpoint bind_positional (ps : list string) (args : list value)
    (b : gmap string value) : option (gmap string value) :=
  match args, ps with
  | [], _ => Some b
  | _ :: _, [] => None
  | a :: args', p :: ps' => bind_positional ps' args' (<[p := a]> b)
  end.

(** A keyword argument must name a parameter that is still unbound. *)
Fixpoint bind_keywords (kwargs : list (string * value))
    (b : gmap string value) : option (gmap string value) :=
  match kwargs with
  | [] => Some b
  | (k, v) :: kwargs' =>
      if bool_decide (k ∈ Movie_params) && bool_decide (b !! k = None)
      then bind_keywords kwargs' (<[k := v]> b)
      else None
  end.

(** Modelled from the spec: the constructor of [media.Movie] ([media.py] is
    absent). Given the four values it produces an object exposing them under
    the four attribute names; it performs no validation of the values. *)
Definition Movie_init (args : list value) (kwargs : list (string * value))
  : option Movie :=
  b ← bind_positional Movie_params args ∅;
  b ← bind_keywords kwargs b;
  t ← b !! "title";
  s ← b !! "storyline";
  p ← b !! "poster_image_url";
  y ← b !! "trailer_youtube_url";
  Some (mkMovie t s p y).

(** Modelled from the spec: the call [media.Movie(...)]. Arguments that leave
    a field missing (or that fit no field) are the construction-time failure
    [InvalidMovieData]; otherwise a new object is allocated. *)
Definition media_Movie (args : list value) (kwargs : list (string * value))
  : M value :=
  match Movie_init args kwargs with
  | Some m => alloc m
  | None => raise InvalidMovieData
  end.

(** Modelled from the spec: the single entry point of the external renderer
    ([fresh_tomatoes.py] is absent). It accepts the sequence of records and
    returns nothing the script consumes; all that is kept of a call is the
    fact that it was made, with which argument and on which heap. *)
Definition fresh_tomatoes_open_movies_page (movies : value) : M value := λ s,
  Ok (VNone,
      mkState (globals s) (heap s) (trace s ++ [OpenMoviesPage movies (heap s)])).

(** An expression statement: the value is dropped. *)
Definition expr_stmt (e : M value) : M unit := _ ← e; mret tt.

(** ** The script *)

(** A call site of the constructor: its positional and its keyword
    arguments, as written. *)
Record call : Type := mkCall {
  c_args : list value;
  c_kwargs : list (string * value)
}.

Definition construct (c : call) : M value :=
  media_Movie (c_args c) (c_kwargs c).

Definition toy_story_call : call := mkCall
  [VStr "Toy Story";
   VStr "A story of a boy and his toys that come to life";
   VStr "http://upload.wikimedia.org/wikipedia/en/1/13/Toy_Story.jpg";
   VStr "https://www.youtube.com/watch?v=KYz2wyBy3kc"] [].

Definition avatar_call : call := mkCall
  [VStr "Avatar";
   VStr "A marine on an alien planet";
   VStr "http://upload.wikimedia.org/wikipedia/en/b/b0/Avatar-Teaser-Poster.jpg";
   VStr "https://www.youtube.com/watch?v=cRdxXPV9GNQ"] [].

Definition rurouni_kenshin_call : call := mkCall
  [VStr "Rurouni Kenshin";
   VStr "The story of a wanderer named Himura Kenshin, formerly known as the assassin Hitokiri Battosai";
   VStr "http://upload.wikimedia.org/wikipedia/en/f/f6/Rurouni_Kenshin_%282012_film%29_poster.jpg";
   VStr "https://www.youtube.com/watch?v=lc_JmcRxdx8"] [].

Definition hunger_games_call : call := mkCall
  [VStr "The Hunger Games";
   VStr "A real reality show";
   VStr "http://upload.wikimedia.org/wikipedia/en/4/42/HungerGamesPoster.jpg";
   VStr "https://www.youtube.com/watch?v=4S9a5V9ODuY"] [].

Definition taken_call : call := mkCall
  [VStr "Taken";
   VStr "A former CIA operative named Bryan Mills who sets about tracking down his daughter after she is kidnapped by human traffickers for sexual slavery while travelling in France";
   VStr "http://upload.wikimedia.org/wikipedia/en/e/ed/Taken_film_poster.jpg";
   VStr "https://www.youtube.com/watch?v=wCbDUREBwUg"] [].

Definition gone_girl_call : call := mkCall
  [VStr "Gone Girl";
   VStr "A mystery about a man whose wife has gone missing and the events after";
   VStr "http://upload.wikimedia.org/wikipedia/en/0/05/Gone_Girl_Poster.jpg";
   VStr "https://www.youtube.com/watch?v=2-_-1nJf8Vg"] [].

(** The statements, one per assignment or call of the script. *)
Definition toy_story : M unit := assign "toy_story" (construct toy_story_call).
Definition avatar : M unit := assign "avatar" (construct avatar_call).
Definition rurouni_kenshin : M unit :=
  assign "rurouni_kenshin" (construct rurouni_kenshin_call).
Definition hunger_games : M unit :=
  assign "hunger_games" (construct hunger_games_call).
Definition taken : M unit := assign "taken" (construct taken_call).
Definition gone_girl : M unit := assign "gone_girl" (construct gone_girl_call).

Definition movies : M unit :=
  assign "movies"
    (list_display [name "toy_story"; name "avatar"; name "rurouni_kenshin";
                   name "hunger_games"; name "taken"; name "gone_girl"]).

Definition open_movies_page : M unit :=
  expr_stmt (m ← name "movies"; fresh_tomatoes_open_movies_page m).

Definition script : list (M unit) :=
  [toy_story; avatar; rurouni_kenshin; hunger_games; taken; gone_girl;
   movies; open_movies_page].

(** Statements run one after the other; the first exception ends the run. *)
Fixpoint exec (ss : list (M unit)) : M unit :=
  match ss with
  | [] => mret tt
  | st :: ss' => _ ← st; exec ss'
  end.

Definition main : M unit := exec script.

(** The state a fresh interpreter starts from. *)
Definition initial : state := mkState ∅ [] [].

(** The constructor calls of the script, in the order they are made, and the
    names their results are bound to. *)
Definition Movie_calls : list call :=
  [toy_story_call; avatar_call; rurouni_kenshin_call; hunger_games_call;
   taken_call; gone_girl_call].

Definition Movie_names : list string :=
  ["toy_story"; "avatar"; "rurouni_kenshin"; "hunger_games"; "taken";
   "gone_girl"].

Definition record_of (c : call) : option Movie :=
  Movie_init (c_args c) (c_kwargs c).

(** The objects the six calls produce, in the order of the calls. *)
Definition Movie_records : list Movie := omap record_of Movie_calls.

(** The attribute values of an object, in the order of the parameters. *)
Definition fields (m : Movie) : list value :=
  [title m; storyline m; poster_image_url m; trailer_youtube_url m].

(** Following a reference on a given heap. *)
Definition deref (h : list Movie) (v : value) : option Movie :=
  match v with
  | VRef r => h !! r
  | _ => None
  end.

(** The records the renderer was handed in a call: the items of the list it
    received, each followed on the heap of the call. *)
Definition passed_records (e : event) : option (list Movie) :=
  match ev_arg e with
  | VList vs => mapM (deref (ev_heap e)) vs
  | _ => None
  end.

(** The objects allocated between two states of a run. *)
Definition created (s0 s : state) : list Movie :=
  drop (length (heap s0)) (heap s).

(** A non-empty string, as opposed to an empty one or to any other value. *)
Definition is_nonempty_str (v : value) : bool :=
  match v with
  | VStr s => negb (String.eqb s "")
  | _ => false
  end.

(** A string that starts with [p]. *)
Definition str_starts_with (p : string) (v : value) : bool :=
  match v with
  | VStr s => String.prefix p s
  | _ => false
  end.

(** The constructor as the spec words it for a reimplementation: one factory
    with four required fields, taken in the order title, storyline, poster
    image URL, trailer URL. *)
Definition Movie_positional (t s p y : string) : M value :=
  alloc (mkMovie (VStr t) (VStr s) (VStr p) (VStr y)).

(** Two constructions in a row, as an expression yielding both results. *)
Definition construct_twice (args : list value) : M (value * value) :=
  v1 ← media_Movie args []; v2 ← media_Movie args []; mret (v1, v2).

(** ** Running the script from an arbitrary state *)

Fixpoint bind_refs (xs : list string) (n : nat) (g : gmap string value)
  : gmap string value :=
  match xs with
  | [] => g
  | x :: xs' => bind_refs xs' (S n) (<[x := VRef n]> g)
  end.

(** The state reached from [s0] once the first [k] statements have run. *)
Definition state_at (k : nat) (s0 : state) : state :=
  let n := length (heap s0) in
  let arg := VList (VRef <$> seq n 6) in
  let h := heap s0 ++ take k Movie_records in
  mkState
    (if decide (7 ≤ k)
     then <["movies" := arg]> (bind_refs Movie_names n (globals s0))
     else bind_refs (take k Movie_names) n (globals s0))
    h
    (if decide (8 ≤ k) then trace s0 ++ [OpenMoviesPage arg h] else trace s0).

(** ** The script over arbitrary collaborators *)

(** The script with the two imported callables left open: [Movie] stands for
    [media.Movie] and [open_page] for [fresh_tomatoes.open_movies_page]. *)
Definition script_with (Movie : list value → list (string * value) → M value)
    (open_page : value → M value) : list (M unit) :=
  [assign "toy_story"
     (Movie (c_args toy_story_call) (c_kwargs toy_story_call));
   assign "avatar" (Movie (c_args avatar_call) (c_kwargs avatar_call));
   assign "rurouni_kenshin"
     (Movie (c_args rurouni_kenshin_call) (c_kwargs rurouni_kenshin_call));
   assign "hunger_games"
     (Movie (c_args hunger_games_call) (c_kwargs hunger_games_call));
   assign "taken" (Movie (c_args taken_call) (c_kwargs taken_call));
   assign "gone_girl" (Movie (c_args gone_girl_call) (c_kwargs gone_girl_call));
   movies;
   expr_stmt (m ← name "movies"; open_page m)].

(** The six constructor calls as expressions, in the order they are written. *)
Definition calls_with (Movie : list value → list (string * value) → M value)
  : list (M value) :=
  (λ c, Movie (c_args c) (c_kwargs c)) <$> Movie_calls.

(** The same interpreter state seen from a module whose namespace is [g]. *)
Definition with_globals (g : gmap string value) (s : state) : state :=
  mkState g (heap s) (trace s).

(** A computation of another module: it neither reads nor writes the
    namespace of the script. What it does is fixed by the heap and the trace,
    and it hands the namespace back as it found it. *)
Definition foreign {A : Type} (m : M A) : Prop :=
  ∀ s : state,
    m s = match m (with_globals ∅ s) with
          | Ok (a, s') => Ok (a, with_globals (globals s) s')
          | Raise e => Raise e
          end.

(** Names bound to values, one after the other. *)
Fixpoint bind_values (xs : list string) (vs : list value)
    (g : gmap string value) : gmap string value :=
  match xs, vs with
  | x :: xs', v :: vs' => bind_values xs' vs' (<[x := v]> g)
  | _, _ => g
  end.

(** A constructor that gives out: it behaves as [media.Movie] while fewer
    than [n] objects exist and raises from then on. It exercises the runs in
    which a constructor call fails. *)
Definition Movie_capped (n : nat) (args : list value)
    (kwargs : list (string * value)) : M value := λ s,
  if length (heap s) <? n then media_Movie args kwargs s
  else Raise InvalidMovieData.

(** Distinctness of the members of a list of closed values. *)
Ltac distinct :=
  repeat (apply NoDup_cons_2;
          [rewrite ?not_elem_of_cons; repeat split;
           solve [discriminate | apply not_elem_of_nil | lia]|]);
  apply NoDup_nil_2.

(** The call protocol at work: keywords fill the parameters left open, a
    missing field or a field given twice cannot be bound. *)
Example Movie_init_keywords :
  Movie_init [VStr "a"; VStr "b"]
    [("trailer_youtube_url", VStr "d"); ("poster_image_url", VStr "c")]
  = Some (mkMovie (VStr "a") (VStr "b") (VStr "c") (VStr "d")).
Proof. reflexivity. Qed.

Example Movie_init_missing_field :
  media_Movie [VStr "a"; VStr "b"; VStr "c"] [] initial = Raise InvalidMovieData.
Proof. reflexivity. Qed.

Example Movie_init_field_twice :
  Movie_init [VStr "a"; VStr "b"; VStr "c"; VStr "d"] [("title", VStr "e")]
  = None.
Proof. reflexivity. Qed.

Example unbound_name : name "movies" initial = Raise (NameError "movies").
Proof. reflexivity. Qed.

Example main_initial_call :
  (λ r, match r with Ok (_, s) => ev_arg <$> trace s | Raise _ => [] end)
    (main initial)
  = [VList [VRef 0; VRef 1; VRef 2; VRef 3; VRef 4; VRef 5]].
Proof. vm_compute. reflexivity. Qed.

Lemma Movie_init_positional (t s p y : value) :
  Movie_init [t; s; p; y] [] = Some (mkMovie t s p y).
Proof. reflexivity. Qed.

Lemma Movie_records_eq :
  Forall2 (λ c m, record_of c = Some m ∧ fields m = c_args c)
    Movie_calls Movie_records.
Proof. repeat constructor. Qed.

Lemma length_Movie_records : length Movie_records = 6.
Proof. reflexivity. Qed.

Lemma bind_ok {A B : Type} (m : M A) (f : A → M B) (s s' : state) (a : A) :
  m s = Ok (a, s') → (m ≫= f) s = f a s'.
Proof. intros H. unfold mbind, M_bind. by rewrite H. Qed.

Lemma exec_app (ss1 ss2 : list (M unit)) (s s' : state) :
  exec ss1 s = Ok (tt, s') → exec (ss1 ++ ss2) s = exec ss2 s'.
Proof.
  revert s. induction ss1 as [|st ss1 IH]; intros s; simpl.
  - unfold mret, M_ret. by intros [= ->].
  - unfold mbind, M_bind. destruct (st s) as [[[] s1]|e]; [|done]. apply IH.
Qed.

Lemma media_Movie_run (t s p y : value) (st : state) :
  media_Movie [t; s; p; y] [] st =
    Ok (VRef (length (heap st)),
        mkState (globals st) (heap st ++ [mkMovie t s p y]) (trace st)).
Proof. reflexivity. Qed.

Lemma construct_run (c : call) (m : Movie) (s : state) :
  record_of c = Some m →
  construct c s =
    Ok (VRef (length (heap s)), mkState (globals s) (heap s ++ [m]) (trace s)).
Proof.
  unfold record_of, construct, media_Movie. intros ->. reflexivity.
Qed.

Lemma assign_construct_run (x : string) (c : call) (m : Movie) (s : state) :
  record_of c = Some m →
  assign x (construct c) s =
    Ok (tt, mkState (<[x := VRef (length (heap s))]> (globals s))
                    (heap s ++ [m]) (trace s)).
Proof.
  intros H. unfold assign. by rewrite (bind_ok _ _ _ _ _ (construct_run c m s H)).
Qed.

(** A run of constructor calls, each bound to a name: the objects are
    appended to the heap in the order of the calls. *)
Lemma exec_constructions (xs : list string) (cs : list call) (ms : list Movie)
    (s : state) :
  length xs = length cs →
  Forall2 (λ c m, record_of c = Some m) cs ms →
  exec (zip_with (λ x c, assign x (construct c)) xs cs) s =
    Ok (tt, mkState (bind_refs xs (length (heap s)) (globals s))
                    (heap s ++ ms) (trace s)).
Proof.
  intros Hlen Hcs. revert xs s Hlen.
  induction Hcs as [|c m cs ms Hc _ IH]; intros [|x xs] s Hlen; try done.
  - simpl. by rewrite app_nil_r; destruct s.
  - simpl in *. rewrite (bind_ok _ _ _ _ _ (assign_construct_run x c m s Hc)).
    rewrite IH by lia. simpl. rewrite length_app, Nat.add_1_r.
    by rewrite <- app_assoc.
Qed.

Lemma script_split (k : nat) :
  k ≤ 6 →
  take k script =
    zip_with (λ x c, assign x (construct c)) (take k Movie_names)
      (take k Movie_calls).
Proof.
  intros Hk. do 7 (destruct k as [|k]; [reflexivity|]). lia.
Qed.

Lemma take_records (k : nat) :
  Forall2 (λ c m, record_of c = Some m) (take k Movie_calls)
    (take k Movie_records).
Proof.
  apply Forall2_take. eapply Forall2_impl; [apply Movie_records_eq|].
  by intros c m [? _].
Qed.

Lemma exec_take_constructions (k : nat) (s0 : state) :
  k ≤ 6 → exec (take k script) s0 = Ok (tt, state_at k s0).
Proof.
  intros Hk. rewrite script_split by done.
  rewrite (exec_constructions _ _ (take k Movie_records)).
  - unfold state_at. by repeat case_decide; try lia.
  - rewrite !length_take. reflexivity.
  - apply take_records.
Qed.

Lemma name_run (x : string) (v : value) (s : state) :
  globals s !! x = Some v → name x s = Ok (v, s).
Proof. unfold name. by intros ->. Qed.

(** After the six assignments each name refers to its own object. *)
Lemma lookup_Movie_names (i : nat) (x : string) (n : nat)
    (g : gmap string value) :
  Movie_names !! i = Some x →
  bind_refs Movie_names n g !! x = Some (VRef (n + i)).
Proof.
  intros Hi.
  do 6 (destruct i as [|i];
        [injection Hi as <-; simpl; simplify_map_eq; do 2 f_equal; lia|]).
  done.
Qed.

Lemma name_after_constructions (i : nat) (x : string) (s0 : state) :
  Movie_names !! i = Some x →
  name x (state_at 6 s0) = Ok (VRef (length (heap s0) + i), state_at 6 s0).
Proof.
  intros Hi. apply name_run.
  exact (lookup_Movie_names i x (length (heap s0)) (globals s0) Hi).
Qed.

(** Items that evaluate without changing the state. *)
Lemma list_items_run (es : list (M value)) (vs : list value) (s : state) :
  Forall2 (λ e v, e s = Ok (v, s)) es vs → list_items es s = Ok (vs, s).
Proof.
  induction 1 as [|e v es vs He _ IH]; [done|].
  simpl. rewrite (bind_ok _ _ _ _ _ He).
  by rewrite (bind_ok _ _ _ _ _ IH).
Qed.

Lemma movies_run (s0 : state) :
  movies (state_at 6 s0) = Ok (tt, state_at 7 s0).
Proof.
  unfold movies, assign, list_display.
  assert (Hitems : list_items
    [name "toy_story"; name "avatar"; name "rurouni_kenshin";
     name "hunger_games"; name "taken"; name "gone_girl"] (state_at 6 s0)
    = Ok (VRef <$> seq (length (heap s0)) 6, state_at 6 s0)).
  { apply list_items_run.
    replace (VRef <$> seq (length (heap s0)) 6)
      with ((λ i, VRef (length (heap s0) + i)) <$> seq 0 6)
      by (simpl; repeat f_equal; lia).
    repeat constructor; by apply name_after_constructions. }
  rewrite (bind_ok _ _ _ _ _ (bind_ok _ _ _ _ _ Hitems)).
  reflexivity.
Qed.

Lemma open_movies_page_run (s0 : state) :
  open_movies_page (state_at 7 s0) = Ok (tt, state_at 8 s0).
Proof.
  unfold open_movies_page, expr_stmt.
  rewrite (bind_ok _ (λ _, mret ()) (state_at 7 s0) (state_at 8 s0) VNone);
    [reflexivity|].
  rewrite (bind_ok _ _ _ (state_at 7 s0)
    (VList (VRef <$> seq (length (heap s0)) 6))).
  - reflexivity.
  - apply name_run. simpl. by simplify_map_eq.
Qed.

(** Every prefix of the script runs to completion, and [state_at] is the state
    it leaves. *)
Lemma exec_take (k : nat) (s0 : state) :
  exec (take k script) s0 = Ok (tt, state_at k s0).
Proof.
  destruct (decide (k ≤ 6)) as [Hk|Hk]; [by apply exec_take_constructions|].
  assert (H6 := exec_take_constructions 6 s0 (le_n 6)).
  destruct (decide (k = 7)) as [->|Hk7].
  - change (take 7 script) with (take 6 script ++ [movies]).
    rewrite (exec_app _ _ _ _ H6). simpl.
    by rewrite (bind_ok _ _ _ _ _ (movies_run s0)).
  - assert (Hk8 : 8 ≤ k) by lia.
    rewrite (take_ge script k) by (simpl; lia).
    change script with (take 6 script ++ [movies; open_movies_page]).
    rewrite (exec_app _ _ _ _ H6). simpl.
    rewrite (bind_ok _ _ _ _ _ (movies_run s0)).
    rewrite (bind_ok _ _ _ _ _ (open_movies_page_run s0)).
    unfold state_at.
    rewrite (take_ge Movie_records k) by (rewrite length_Movie_records; lia).
    by repeat case_decide; try lia.
Qed.

Lemma main_run (s0 : state) : main s0 = Ok (tt, state_at 8 s0).
Proof. apply (exec_take 8 s0). Qed.

(** The objects the script allocates are the six records, whatever the heap
    held before. *)
Lemma created_state_at (k : nat) (s0 : state) :
  created s0 (state_at k s0) = take k Movie_records.
Proof. unfold created. simpl. by rewrite drop_app_length. Qed.

Lemma created_main (s0 : state) : created s0 (state_at 8 s0) = Movie_records.
Proof. apply created_state_at. Qed.

(** Following consecutive references into the tail of a heap. *)
Lemma deref_appended (ms : list Movie) (h : list Movie) :
  mapM (deref (h ++ ms)) (VRef <$> seq (length h) (length ms)) = Some ms.
Proof.
  revert h. induction ms as [|m ms IH]; intros h; [done|].
  simpl. rewrite list_lookup_middle by done. simpl.
  specialize (IH (h ++ [m])).
  rewrite length_app, Nat.add_1_r, <- app_assoc in IH. simpl in IH.
  unfold fmap in IH. by rewrite IH.
Qed.

Lemma passed_records_main (s0 : state) :
  passed_records
    (OpenMoviesPage (VList (VRef <$> seq (length (heap s0)) 6))
       (heap s0 ++ Movie_records)) = Some Movie_records.
Proof. apply (deref_appended Movie_records (heap s0)). Qed.

Lemma lookup_created (k i : nat) (s0 : state) (m : Movie) :
  i < k →
  Movie_records !! i = Some m →
  heap (state_at k s0) !! (length (heap s0) + i) = Some m.
Proof.
  intros Hik Hm. simpl. rewrite lookup_app_r by lia.
  replace (length (heap s0) + i - length (heap s0)) with i by lia.
  by rewrite lookup_take_lt.
Qed.

(** ** The sequence handed to the renderer *)

(** Claim C1. From any starting state the script runs to completion and calls
    the renderer with a list of six items: the objects bound to [toy_story],
    [avatar], [rurouni_kenshin], [hunger_games], [taken] and [gone_girl], in
    that order. Followed on the heap of the call they are the records the six
    constructor calls produced, and their titles read Toy Story, Avatar,
    Rurouni Kenshin, The Hunger Games, Taken, Gone Girl. *)
Theorem renderer_receives_authoring_order (s0 : state) :
  ∃ (s : state) (e : event) (vs : list value) (ms : list Movie),
    main s0 = Ok (tt, s) ∧
    trace s = trace s0 ++ [e] ∧
    mapM (λ x, globals s !! x) Movie_names = Some vs ∧
    ev_arg e = VList vs ∧
    passed_records e = Some ms ∧
    ms = Movie_records ∧
    title <$> ms =
      [VStr "Toy Story"; VStr "Avatar"; VStr "Rurouni Kenshin";
       VStr "The Hunger Games"; VStr "Taken"; VStr "Gone Girl"].
Proof.
  exists (state_at 8 s0), (OpenMoviesPage
    (VList (VRef <$> seq (length (heap s0)) 6)) (heap s0 ++ Movie_records)),
    (VRef <$> seq (length (heap s0)) 6), Movie_records.
  split; [apply main_run|]. split; [reflexivity|].
  split; [|split; [reflexivity|split; [apply passed_records_main|done]]].
  simpl. by simplify_map_eq.
Qed.

(** Claim C2. End to end: the constructor call on the four Toy Story strings
    yields an object whose four attributes are those strings; the script
    reaches its end having called the renderer exactly once, with a list of
    six items whose first item is that object, the attributes still reading
    the four strings on the heap of the call. *)
Theorem toy_story_end_to_end (s0 : state) :
  ∃ (r : nat) (s1 s : state) (e : event) (rest : list value),
    media_Movie
      [VStr "Toy Story";
       VStr "A story of a boy and his toys that come to life";
       VStr "http://upload.wikimedia.org/wikipedia/en/1/13/Toy_Story.jpg";
       VStr "https://www.youtube.com/watch?v=KYz2wyBy3kc"] [] s0
      = Ok (VRef r, s1) ∧
    heap s1 !! r =
      Some (mkMovie
        (VStr "Toy Story")
        (VStr "A story of a boy and his toys that come to life")
        (VStr "http://upload.wikimedia.org/wikipedia/en/1/13/Toy_Story.jpg")
        (VStr "https://www.youtube.com/watch?v=KYz2wyBy3kc")) ∧
    exec (take 1 script) s0
      = Ok (tt, mkState (<["toy_story" := VRef r]> (globals s1)) (heap s1)
                  (trace s1)) ∧
    main s0 = Ok (tt, s) ∧
    trace s = trace s0 ++ [e] ∧
    ev_arg e = VList (VRef r :: rest) ∧
    length rest = 5 ∧
    ev_heap e !! r = heap s1 !! r.
Proof.
  exists (length (heap s0)),
    (mkState (globals s0) (heap s0 ++ take 1 Movie_records) (trace s0)),
    (state_at 8 s0),
    (OpenMoviesPage (VList (VRef <$> seq (length (heap s0)) 6))
       (heap s0 ++ Movie_records)),
    (VRef <$> seq (S (length (heap s0))) 5).
  split; [reflexivity|]. split.
  { simpl. rewrite lookup_app_r by lia. by rewrite Nat.sub_diag. }
  split; [apply (exec_take 1 s0)|].
  split; [apply main_run|]. split; [reflexivity|]. split; [reflexivity|].
  split; [reflexivity|].
  simpl. rewrite !lookup_app_r by lia. by rewrite Nat.sub_diag.
Qed.

(** ** The six literal records *)

(** Claim C3. After the run each of the six names refers to an object whose
    attributes, read in the order title, storyline, poster image URL, trailer
    URL, are the four strings of its constructor call, character for
    character. The assignment of argument to attribute does not depend on the
    state the call is made in: any later construction from the same call
    yields the same attribute values. *)
Theorem literal_records_expose_their_arguments (s0 : state) :
  ∃ s : state,
    main s0 = Ok (tt, s) ∧
    Forall2 (λ x c, ∃ (r : nat) (m : Movie),
               globals s !! x = Some (VRef r) ∧ heap s !! r = Some m ∧
               fields m = c_args c)
      Movie_names Movie_calls ∧
    Forall (λ c, ∀ st : state, ∃ (r : nat) (st' : state) (m : Movie),
              construct c st = Ok (VRef r, st') ∧ heap st' !! r = Some m ∧
              fields m = c_args c)
      Movie_calls.
Proof.
  exists (state_at 8 s0). split; [apply main_run|]. split.
  - assert (Hrec : ∀ i x c, Movie_names !! i = Some x → Movie_calls !! i = Some c →
      ∃ (r : nat) (m : Movie),
        globals (state_at 8 s0) !! x = Some (VRef r) ∧
        heap (state_at 8 s0) !! r = Some m ∧ fields m = c_args c).
    { intros i x c Hx Hc.
      destruct (Forall2_lookup_l _ _ _ _ _ Movie_records_eq Hc)
        as (m & Hm & _ & Hf).
      exists (length (heap s0) + i), m. split; [|split; [|done]].
      - simpl. rewrite lookup_insert_ne.
        + by apply lookup_Movie_names.
        + intros <-. by do 6 (destruct i as [|i]; [done|]).
      - apply lookup_created; [|done]. apply lookup_lt_Some in Hc.
        simpl in Hc. lia. }
    apply Forall2_same_length_lookup_2; [reflexivity|]. intros i x c.
    apply Hrec.
  - apply Forall_forall. intros c Hc st.
    apply list_elem_of_lookup in Hc as [i Hc].
    destruct (Forall2_lookup_l _ _ _ _ _ Movie_records_eq Hc)
      as (m & _ & Hm & Hf).
    exists (length (heap st)),
      (mkState (globals st) (heap st ++ [m]) (trace st)), m.
    split; [by apply construct_run|].
    split; [|done]. simpl. by rewrite list_lookup_middle.
Qed.

(** Claim C4. The script allocates six objects, and in each of them every one
    of the four attributes holds a string that is not empty. *)
Theorem constructed_fields_nonempty (s0 : state) :
  ∃ s : state,
    main s0 = Ok (tt, s) ∧
    length (created s0 s) = 6 ∧
    Forall (λ m, Forall (λ v, is_nonempty_str v = true) (fields m))
      (created s0 s).
Proof.
  exists (state_at 8 s0). split; [apply main_run|].
  rewrite created_main. split; [reflexivity|].
  repeat constructor.
Qed.

(** ** The constructor *)

(** Claim C5. A call with four positional arguments never fails and never
    inspects them: whatever the four values and whatever the state, it returns
    the next free address, appends the object made of the four values to the
    heap and leaves the namespace, the trace and the objects already there as
    they were. In particular each of the six calls of the script succeeds in
    every state, touching nothing but the end of the heap. *)
Theorem construction_total_and_pure :
  (∀ (t s p y : value) (st : state),
     media_Movie [t; s; p; y] [] st =
       Ok (VRef (length (heap st)),
           mkState (globals st) (heap st ++ [mkMovie t s p y]) (trace st))) ∧
  Forall (λ c, ∀ st : state, ∃ (r : nat) (st' : state),
            construct c st = Ok (VRef r, st') ∧
            globals st' = globals st ∧
            trace st' = trace st ∧
            take (length (heap st)) (heap st') = heap st ∧
            length (heap st') = S (length (heap st)))
    Movie_calls.
Proof.
  split; [exact media_Movie_run|].
  apply Forall_forall. intros c Hc st.
  apply list_elem_of_lookup in Hc as [i Hc].
  destruct (Forall2_lookup_l _ _ _ _ _ Movie_records_eq Hc)
    as (m & _ & Hm & _).
  exists (length (heap st)), (mkState (globals st) (heap st ++ [m]) (trace st)).
  split; [by apply construct_run|]. simpl.
  rewrite take_app_length, length_app. simpl. repeat split; lia.
Qed.

(** Claim C6. Constructing twice from the same four strings gives two objects
    at different addresses whose attributes are equal, field by field, to the
    four strings and hence to each other; overwriting either object leaves the
    other as it was. *)
Theorem construction_twice_independent_equal (t s p y : string) (st : state) :
  ∃ (r1 r2 : nat) (st' : state) (m1 m2 : Movie),
    construct_twice [VStr t; VStr s; VStr p; VStr y] st
      = Ok ((VRef r1, VRef r2), st') ∧
    r1 ≠ r2 ∧
    heap st' !! r1 = Some m1 ∧
    heap st' !! r2 = Some m2 ∧
    fields m1 = [VStr t; VStr s; VStr p; VStr y] ∧
    fields m2 = [VStr t; VStr s; VStr p; VStr y] ∧
    m1 = m2 ∧
    (∀ m' : Movie, <[r1 := m']> (heap st') !! r2 = Some m2) ∧
    (∀ m' : Movie, <[r2 := m']> (heap st') !! r1 = Some m1).
Proof.
  set (m := mkMovie (VStr t) (VStr s) (VStr p) (VStr y)).
  exists (length (heap st)), (S (length (heap st))),
    (mkState (globals st) ((heap st ++ [m]) ++ [m]) (trace st)), m, m.
  assert (H1 : ((heap st ++ [m]) ++ [m]) !! length (heap st) = Some m).
  { rewrite <- app_assoc. by apply list_lookup_middle. }
  assert (H2 : ((heap st ++ [m]) ++ [m]) !! S (length (heap st)) = Some m).
  { apply list_lookup_middle. rewrite length_app. simpl. lia. }
  split.
  { unfold construct_twice.
    rewrite (bind_ok _ _ _ _ _ (media_Movie_run _ _ _ _ st)).
    rewrite (bind_ok _ _ _ _ _ (media_Movie_run _ _ _ _ _)).
    simpl. rewrite length_app. simpl. by rewrite Nat.add_1_r. }
  split; [lia|]. simpl.
  repeat split; try done.
  - intros m'. rewrite list_lookup_insert_ne by lia. done.
  - intros m'. rewrite list_lookup_insert_ne by lia. done.
Qed.

(** ** Lifetime of the records *)

(** Claim C7. The object of the [i]-th constructor call does not exist before
    its statement runs and exists, with the four literal values of the call,
    right after it; it reads the same in every later state of the run up to
    the call of the renderer and on the heap the renderer is called on. The
    run allocates six objects in all and calls the renderer once. *)
Theorem records_unchanged_until_rendering (s0 : state) (i j : nat) (c : call) :
  Movie_calls !! i = Some c →
  i < j →
  j ≤ 7 →
  ∃ (s_pre s_i s_j s : state) (e : event) (m : Movie),
    exec (take i script) s0 = Ok (tt, s_pre) ∧
    exec (take (S i) script) s0 = Ok (tt, s_i) ∧
    exec (take j script) s0 = Ok (tt, s_j) ∧
    main s0 = Ok (tt, s) ∧
    trace s = trace s0 ++ [e] ∧
    heap s_pre !! (length (heap s0) + i) = None ∧
    heap s_i !! (length (heap s0) + i) = Some m ∧
    fields m = c_args c ∧
    heap s_j !! (length (heap s0) + i) = Some m ∧
    ev_heap e !! (length (heap s0) + i) = Some m ∧
    length (created s0 s) = 6.
Proof.
  intros Hc Hij Hj.
  destruct (Forall2_lookup_l _ _ _ _ _ Movie_records_eq Hc)
    as (m & Hm & _ & Hf).
  assert (Hi : i < 6) by (apply lookup_lt_Some in Hc; simpl in Hc; lia).
  exists (state_at i s0), (state_at (S i) s0), (state_at j s0),
    (state_at 8 s0),
    (OpenMoviesPage (VList (VRef <$> seq (length (heap s0)) 6))
       (heap s0 ++ Movie_records)), m.
  split; [apply exec_take|]. split; [apply exec_take|].
  split; [apply exec_take|]. split; [apply main_run|].
  split; [reflexivity|]. split.
  { apply lookup_ge_None_2. simpl. rewrite length_app, length_take. lia. }
  split; [apply lookup_created; [lia|done]|]. split; [done|].
  split; [apply lookup_created; [lia|done]|]. split.
  - apply (lookup_created 8 i s0 m); [lia|done].
  - by rewrite created_main.
Qed.

Lemma records_unchanged_until_rendering_witness :
  Movie_calls !! 2 = Some rurouni_kenshin_call ∧ 2 < 7 ∧ 7 ≤ 7 ∧
  ∃ (s_pre s_i s_j s : state) (e : event) (m : Movie),
    exec (take 2 script) initial = Ok (tt, s_pre) ∧
    exec (take 3 script) initial = Ok (tt, s_i) ∧
    exec (take 7 script) initial = Ok (tt, s_j) ∧
    main initial = Ok (tt, s) ∧
    trace s = trace initial ++ [e] ∧
    heap s_pre !! (length (heap initial) + 2) = None ∧
    heap s_i !! (length (heap initial) + 2) = Some m ∧
    fields m = c_args rurouni_kenshin_call ∧
    heap s_j !! (length (heap initial) + 2) = Some m ∧
    ev_heap e !! (length (heap initial) + 2) = Some m ∧
    length (created initial s) = 6.
Proof.
  split; [reflexivity|]. split; [lia|]. split; [lia|].
  apply (records_unchanged_until_rendering initial 2 7 rurouni_kenshin_call);
    [reflexivity | lia | lia].
Defined.

(** ** Shape of the literal data *)

(** Claim C8. In each of the six objects the script allocates, the poster
    image URL starts with http://upload.wikimedia.org/wikipedia/en/ and the
    trailer URL starts with https://www.youtube.com/watch?v= . *)
Theorem url_prefixes (s0 : state) :
  ∃ s : state,
    main s0 = Ok (tt, s) ∧
    length (created s0 s) = 6 ∧
    Forall (λ m,
        str_starts_with "http://upload.wikimedia.org/wikipedia/en/"
          (poster_image_url m) = true ∧
        str_starts_with "https://www.youtube.com/watch?v="
          (trailer_youtube_url m) = true)
      (created s0 s).
Proof.
  exists (state_at 8 s0). split; [apply main_run|].
  rewrite created_main. split; [reflexivity|].
  repeat constructor.
Qed.

(** Claim C9. The six objects have pairwise distinct titles, pairwise distinct
    poster URLs and pairwise distinct trailer URLs; the list the renderer
    receives holds six different references, and the records they lead to are
    pairwise different. *)
Theorem records_pairwise_distinct (s0 : state) :
  ∃ (s : state) (e : event) (vs : list value) (ms : list Movie),
    main s0 = Ok (tt, s) ∧
    trace s = trace s0 ++ [e] ∧
    ev_arg e = VList vs ∧
    passed_records e = Some ms ∧
    ms = created s0 s ∧
    length ms = 6 ∧
    NoDup (title <$> ms) ∧
    NoDup (poster_image_url <$> ms) ∧
    NoDup (trailer_youtube_url <$> ms) ∧
    NoDup vs ∧
    NoDup ms.
Proof.
  exists (state_at 8 s0), (OpenMoviesPage
    (VList (VRef <$> seq (length (heap s0)) 6)) (heap s0 ++ Movie_records)),
    (VRef <$> seq (length (heap s0)) 6), Movie_records.
  split; [apply main_run|]. split; [reflexivity|]. split; [reflexivity|].
  split; [apply passed_records_main|]. split; [by rewrite created_main|].
  split; [reflexivity|].
  split; [|split; [|split; [|split]]].
  - vm_compute. distinct.
  - vm_compute. distinct.
  - vm_compute. distinct.
  - apply NoDup_fmap_2; [by intros ?? [=]|]. apply NoDup_seq.
  - vm_compute. distinct.
Qed.

(** ** Call sites against the four-field constructor *)

(** Claim C10. The constructor calls of the script are the six listed in
    [Movie_calls], one per assignment. Each passes no keyword argument and
    exactly four positional arguments, all strings; read in the order title,
    storyline, poster image URL, trailer URL, the one positional four-field
    constructor returns the same reference and leaves the same state as the
    call does, from every state. *)
Theorem calls_are_positional :
  take 6 script =
    zip_with (λ x c, assign x (construct c)) Movie_names Movie_calls ∧
  drop 6 script = [movies; open_movies_page] ∧
  Forall (λ c,
      c_kwargs c = [] ∧
      ∃ t s p y : string,
        c_args c = [VStr t; VStr s; VStr p; VStr y] ∧
        ∀ st : state, construct c st = Movie_positional t s p y st)
    Movie_calls.
Proof.
  split; [reflexivity|]. split; [reflexivity|].
  repeat (constructor;
    [split; [reflexivity|];
     do 4 eexists; split; [reflexivity|]; intros st; apply media_Movie_run|]).
  constructor.
Qed.

(** ** The script whatever the collaborators do *)



Lemma with_globals_idemp (g g' : gmap string value) (s : state) :
  with_globals g (with_globals g' s) = with_globals g s.
Proof. reflexivity. Qed.

Lemma with_globals_id (s : state) : with_globals (globals s) s = s.
Proof. by destruct s. Qed.

(** A foreign computation run under another namespace. *)
Lemma foreign_run {A : Type} (m : M A) (g : gmap string value) (s : state) :
  foreign m →
  m (with_globals g s) =
    match m (with_globals ∅ s) with
    | Ok (a, s') => Ok (a, with_globals g s')
    | Raise e => Raise e
    end.
Proof. intros Hm. by rewrite (Hm (with_globals g s)). Qed.

Lemma foreign_ret {A : Type} (a : A) : foreign (mret a : M A).
Proof. by intros []. Qed.

Lemma foreign_bind {A B : Type} (m : M A) (f : A → M B) :
  foreign m → (∀ a, foreign (f a)) → foreign (m ≫= f).
Proof.
  intros Hm Hf s. unfold mbind, M_bind.
  rewrite (Hm s), (Hm (with_globals ∅ s)), with_globals_idemp.
  destruct (m (with_globals ∅ s)) as [[a s']|e]; [|done].
  rewrite with_globals_idemp. change (globals (with_globals ∅ s)) with (∅ : gmap string value).
  rewrite (foreign_run (f a) (globals s) s' (Hf a)).
  rewrite (foreign_run (f a) ∅ s' (Hf a)).
  destruct (f a (with_globals ∅ s')) as [[b s'']|e]; [|done].
  by rewrite with_globals_idemp.
Qed.

Lemma foreign_list_items (es : list (M value)) :
  Forall foreign es → foreign (list_items es).
Proof.
  induction 1 as [|e es He _ IH]; simpl.
  - apply foreign_ret.
  - apply foreign_bind; [done|]. intros v.
    apply foreign_bind; [done|]. intros vs. apply foreign_ret.
Qed.

Lemma foreign_calls_with (Movie : list value → list (string * value) → M value)
    (cs : list call) :
  (∀ a k, foreign (Movie a k)) →
  Forall foreign ((λ c, Movie (c_args c) (c_kwargs c)) <$> cs).
Proof. intros HM. apply Forall_fmap, Forall_true. intros c. apply HM. Qed.

(** Assignments of constructor results: the calls can be made first and the
    names bound afterwards. *)
Lemma exec_constructions_with
    (Movie : list value → list (string * value) → M value)
    (xs : list string) (cs : list call) (s : state) :
  (∀ a k, foreign (Movie a k)) →
  length xs = length cs →
  exec (zip_with (λ x c, assign x (Movie (c_args c) (c_kwargs c))) xs cs) s =
    match list_items ((λ c, Movie (c_args c) (c_kwargs c)) <$> cs) s with
    | Ok (vs, s') => Ok (tt, with_globals (bind_values xs vs (globals s)) s')
    | Raise e => Raise e
    end.
Proof.
  intros HM. revert xs s.
  induction cs as [|c cs IH]; intros [|x xs] s Hlen; try done.
  - simpl. by rewrite with_globals_id.
  - simpl in Hlen. injection Hlen as Hlen.
    pose proof (foreign_list_items _ (foreign_calls_with Movie cs HM)) as Hcs.
    cbn [zip_with exec fmap list_fmap list_items].
    unfold assign, mbind, M_bind.
    rewrite (HM (c_args c) (c_kwargs c) s).
    destruct (Movie (c_args c) (c_kwargs c) (with_globals ∅ s))
      as [[v s1]|e]; [|done].
    unfold set_global. cbn [globals heap trace with_globals].
    change (mkState (<[x:=v]> (globals s)) (heap s1) (trace s1))
      with (with_globals (<[x:=v]> (globals s)) s1).
    rewrite (IH xs _ Hlen).
    rewrite (foreign_run _ (<[x:=v]> (globals s)) s1 Hcs).
    change (mkState (globals s) (heap s1) (trace s1))
      with (with_globals (globals s) s1).
    rewrite (foreign_run _ (globals s) s1 Hcs).
    destruct (list_items _ (with_globals ∅ s1)) as [[vs s']|e]; done.
Qed.

Lemma exec_app_gen (ss1 ss2 : list (M unit)) (s : state) :
  exec (ss1 ++ ss2) s =
    match exec ss1 s with
    | Ok (_, s') => exec ss2 s'
    | Raise e => Raise e
    end.
Proof.
  revert s. induction ss1 as [|st ss1 IH]; intros s; simpl; [done|].
  unfold mbind, M_bind. destruct (st s) as [[[] s1]|e]; [apply IH|done].
Qed.

Lemma list_items_length (es : list (M value)) (vs : list value) (s s' : state) :
  list_items es s = Ok (vs, s') → length vs = length es.
Proof.
  revert vs s. induction es as [|e es IH]; intros vs s; simpl.
  - by intros [= <- _].
  - unfold mbind, M_bind. destruct (e s) as [[v s1]|?]; [|done].
    destruct (list_items es s1) as [[vs' s2]|?] eqn:Hes; [|done].
    intros [= <- <-]. simpl. f_equal. by eapply IH.
Qed.

Lemma list_items_app (es1 es2 : list (M value)) (s : state) :
  list_items (es1 ++ es2) s =
    match list_items es1 s with
    | Ok (vs1, s1) =>
        match list_items es2 s1 with
        | Ok (vs2, s2) => Ok (vs1 ++ vs2, s2)
        | Raise e => Raise e
        end
    | Raise e => Raise e
    end.
Proof.
  revert s. induction es1 as [|e es1 IH]; intros s; simpl.
  - unfold mret, M_ret. by destruct (list_items es2 s) as [[??]|?].
  - unfold mbind, M_bind. destruct (e s) as [[v s1]|?]; [|done].
    rewrite IH. destruct (list_items es1 s1) as [[vs1 s2]|?]; [|done].
    unfold mret, M_ret. by destruct (list_items es2 s2) as [[??]|?].
Qed.

(** Names that are all bound evaluate to their values and leave the state. *)
Lemma list_items_names (xs : list string) (vs : list value) (s : state) :
  mapM (λ x, globals s !! x) xs = Some vs →
  list_items (name <$> xs) s = Ok (vs, s).
Proof.
  revert vs. induction xs as [|x xs IH]; intros vs; simpl.
  - by intros [= <-].
  - intros H. unfold mbind, M_bind, name at 1.
    destruct (globals s !! x) as [v|]; [|done]. simpl in H.
    destruct (mapM _ xs) as [vs'|]; [|done]. injection H as <-.
    unfold fmap in IH. by rewrite (IH vs' eq_refl).
Qed.

Lemma assign_names_run (x : string) (xs : list string) (vs : list value)
    (s : state) :
  mapM (λ y, globals s !! y) xs = Some vs →
  assign x (list_display (name <$> xs)) s =
    Ok (tt, mkState (<[x := VList vs]> (globals s)) (heap s) (trace s)).
Proof.
  intros H. unfold assign, list_display.
  by rewrite (bind_ok _ _ _ _ _ (bind_ok _ _ _ _ _ (list_items_names _ _ _ H))).
Qed.

Lemma bind_values_lookup_ne (xs : list string) (vs : list value)
    (g : gmap string value) (x : string) :
  x ∉ xs → bind_values xs vs g !! x = g !! x.
Proof.
  revert vs g. induction xs as [|y xs IH]; intros [|v vs] g Hx; try done.
  simpl. apply not_elem_of_cons in Hx as [Hxy Hx].
  rewrite IH by done. by rewrite lookup_insert_ne.
Qed.

(** Distinct names keep the values they were bound to. *)
Lemma bind_values_lookup_all (xs : list string) (vs : list value)
    (g : gmap string value) :
  NoDup xs → length xs = length vs →
  mapM (λ x, bind_values xs vs g !! x) xs = Some vs.
Proof.
  intros Hnd. revert vs g.
  induction Hnd as [|x xs Hx _ IH]; intros [|v vs] g Hlen; try done.
  simpl in *. rewrite bind_values_lookup_ne, lookup_insert_eq by done. simpl.
  assert (Hrest : mapM (λ y, bind_values xs vs (<[x:=v]> g) !! y) xs = Some vs)
    by (apply IH; lia).
  by rewrite Hrest.
Qed.

Lemma NoDup_Movie_names : NoDup ("movies" :: Movie_names).
Proof. unfold Movie_names. distinct. Qed.

Lemma movies_bound (vs : list value) (s : state) :
  mapM (λ y, globals s !! y) Movie_names = Some vs →
  movies s =
    Ok (tt, mkState (<["movies" := VList vs]> (globals s)) (heap s) (trace s)).
Proof. exact (assign_names_run "movies" Movie_names vs s). Qed.

Lemma exec_take7_with (Movie : list value → list (string * value) → M value)
    (open_page : value → M value) (s0 : state) :
  (∀ a k, foreign (Movie a k)) →
  exec (take 7 (script_with Movie open_page)) s0 =
    match list_items (calls_with Movie) s0 with
    | Ok (vs, s6) =>
        Ok (tt, with_globals
                  (<["movies" := VList vs]>
                     (bind_values Movie_names vs (globals s0))) s6)
    | Raise e => Raise e
    end.
Proof.
  intros HM.
  change (take 7 (script_with Movie open_page))
    with (zip_with (λ x c, assign x (Movie (c_args c) (c_kwargs c)))
            Movie_names Movie_calls ++ [movies]).
  rewrite exec_app_gen,
    (exec_constructions_with Movie Movie_names Movie_calls s0 HM eq_refl).
  fold (calls_with Movie).
  destruct (list_items (calls_with Movie) s0) as [[vs s6]|e] eqn:Hvs; [|done].
  apply list_items_length in Hvs. unfold calls_with in Hvs.
  rewrite length_fmap in Hvs.
  assert (Hnd : NoDup Movie_names) by apply (NoDup_cons_1_2 _ _ NoDup_Movie_names).
  pose proof (bind_values_lookup_all Movie_names vs (globals s0) Hnd
    (eq_sym Hvs)) as Hall.
  cbn [exec].
  rewrite (bind_ok movies _ _ _ _
    (movies_bound vs (with_globals (bind_values Movie_names vs (globals s0)) s6)
       Hall)).
  reflexivity.
Qed.

Lemma open_page_run (open_page : value → M value) (v : value) (s : state) :
  globals s !! "movies" = Some v →
  expr_stmt (m ← name "movies"; open_page m) s =
    match open_page v s with
    | Ok (_, s') => Ok (tt, s')
    | Raise e => Raise e
    end.
Proof.
  intros Hv. unfold expr_stmt.
  unfold mbind at 1. unfold M_bind.
  rewrite (bind_ok _ _ _ _ _ (name_run "movies" v s Hv)).
  by destruct (open_page v s) as [[??]|?].
Qed.

Lemma exec_script_with (Movie : list value → list (string * value) → M value)
    (open_page : value → M value) (s0 : state) :
  (∀ a k, foreign (Movie a k)) →
  exec (script_with Movie open_page) s0 =
    match list_items (calls_with Movie) s0 with
    | Ok (vs, s6) =>
        match open_page (VList vs)
                (with_globals
                   (<["movies" := VList vs]>
                      (bind_values Movie_names vs (globals s0))) s6) with
        | Ok (_, s) => Ok (tt, s)
        | Raise e => Raise e
        end
    | Raise e => Raise e
    end.
Proof.
  intros HM.
  change (script_with Movie open_page)
    with (take 7 (script_with Movie open_page)
            ++ [expr_stmt (m ← name "movies"; open_page m)]).
  rewrite exec_app_gen, (exec_take7_with Movie open_page s0 HM).
  destruct (list_items (calls_with Movie) s0) as [[vs s6]|e]; [|done].
  cbn [exec]. unfold mbind at 1. unfold M_bind.
  rewrite (open_page_run open_page (VList vs)) by apply lookup_insert_eq.
  by destruct (open_page _ _) as [[[] ?]|?].
Qed.

Lemma media_Movie_foreign (a : list value) (k : list (string * value)) :
  foreign (media_Movie a k).
Proof. intros []. unfold media_Movie. by destruct (Movie_init a k). Qed.



(** Property X1. Whatever the constructor and the renderer are, as long as the
    constructor belongs to another module, running the script is: make the six
    constructor calls one after the other in the order they are written; bind
    the six names to the six results and [movies] to the list of them; call
    the renderer once on that list and drop what it returns. An exception of
    a call or of the renderer is the outcome of the run. *)
Theorem script_normal_form
    (Movie : list value → list (string * value) → M value)
    (open_page : value → M value) (s0 : state) :
  (∀ a k, foreign (Movie a k)) →
  exec (script_with Movie open_page) s0 =
    match list_items (calls_with Movie) s0 with
    | Ok (vs, s6) =>
        match open_page (VList vs)
                (with_globals
                   (<["movies" := VList vs]>
                      (bind_values Movie_names vs (globals s0))) s6) with
        | Ok (_, s) => Ok (tt, s)
        | Raise e => Raise e
        end
    | Raise e => Raise e
    end.
Proof.
  intros HM.
  change (script_with Movie open_page)
    with (take 7 (script_with Movie open_page)
            ++ [expr_stmt (m ← name "movies"; open_page m)]).
  rewrite exec_app_gen, (exec_take7_with Movie open_page s0 HM).
  destruct (list_items (calls_with Movie) s0) as [[vs s6]|e]; [|done].
  cbn [exec]. unfold mbind at 1. unfold M_bind.
  rewrite (open_page_run open_page (VList vs)) by apply lookup_insert_eq.
  by destruct (open_page _ _) as [[[] ?]|?].
Qed.

Lemma script_normal_form_witness :
  (∀ a k, foreign (media_Movie a k)) ∧
  exec (script_with media_Movie fresh_tomatoes_open_movies_page) initial =
    match list_items (calls_with media_Movie) initial with
    | Ok (vs, s6) =>
        match fresh_tomatoes_open_movies_page (VList vs)
                (with_globals
                   (<["movies" := VList vs]>
                      (bind_values Movie_names vs (globals initial))) s6) with
        | Ok (_, s) => Ok (tt, s)
        | Raise e => Raise e
        end
    | Raise e => Raise e
    end.
Proof.
  split; [exact media_Movie_foreign|].
  apply (script_normal_form media_Movie fresh_tomatoes_open_movies_page initial).
  exact media_Movie_foreign.
Defined.

(** Property X2. There is no handler in the script: if the first [i]
    constructor calls succeed and the next one raises, the run ends with that
    exception, and the renderer has no say in it. *)
Theorem constructor_failure_ends_run
    (Movie : list value → list (string * value) → M value)
    (open_page : value → M value) (s0 s_i : state) (i : nat) (c : call)
    (vs : list value) (e : exn) :
  (∀ a k, foreign (Movie a k)) →
  Movie_calls !! i = Some c →
  list_items (take i (calls_with Movie)) s0 = Ok (vs, s_i) →
  Movie (c_args c) (c_kwargs c) s_i = Raise e →
  exec (script_with Movie open_page) s0 = Raise e.
Proof.
  intros HM Hc Hvs He.
  assert (Hcalls : list_items (calls_with Movie) s0 = Raise e).
  { assert (Hi : calls_with Movie !! i = Some (Movie (c_args c) (c_kwargs c)))
      by (unfold calls_with; by rewrite list_lookup_fmap, Hc).
    rewrite <- (take_drop_middle _ _ _ Hi), list_items_app, Hvs.
    cbn [list_items]. unfold mbind at 1. unfold M_bind. by rewrite He. }
  change (script_with Movie open_page)
    with (take 7 (script_with Movie open_page)
            ++ [expr_stmt (m ← name "movies"; open_page m)]).
  by rewrite exec_app_gen, (exec_take7_with Movie open_page s0 HM), Hcalls.
Qed.

Lemma Movie_capped_foreign (n : nat) (a : list value)
    (k : list (string * value)) :
  foreign (Movie_capped n a k).
Proof.
  intros [g h t]. unfold Movie_capped. simpl.
  destruct (length h <? n); [apply (media_Movie_foreign a k)|done].
Qed.

Lemma constructor_failure_ends_run_witness :
  (∀ a k, foreign (Movie_capped 2 a k)) ∧
  Movie_calls !! 2 = Some rurouni_kenshin_call ∧
  list_items (take 2 (calls_with (Movie_capped 2))) initial
    = Ok ([VRef 0; VRef 1], mkState ∅ (take 2 Movie_records) []) ∧
  Movie_capped 2 (c_args rurouni_kenshin_call) (c_kwargs rurouni_kenshin_call)
    (mkState ∅ (take 2 Movie_records) []) = Raise InvalidMovieData ∧
  exec (script_with (Movie_capped 2) fresh_tomatoes_open_movies_page) initial
    = Raise InvalidMovieData.
Proof.
  split; [exact (Movie_capped_foreign 2)|]. split; [reflexivity|].
  split; [reflexivity|]. split; [reflexivity|].
  apply (constructor_failure_ends_run (Movie_capped 2)
           fresh_tomatoes_open_movies_page initial
           (mkState ∅ (take 2 Movie_records) []) 2 rurouni_kenshin_call
           [VRef 0; VRef 1] InvalidMovieData);
    [exact (Movie_capped_foreign 2) | reflexivity | reflexivity | reflexivity].
Defined.






(** Evaluating a list of names: the first unbound one is reported, otherwise
    the values come back in order and the state is untouched. *)
Lemma list_items_names_outcome (xs : list string) (s : state) :
  list_items (name <$> xs) s =
    match head (filter (λ x, globals s !! x = None) xs) with
    | Some x => Raise (NameError x)
    | None => Ok (omap (λ x, globals s !! x) xs, s)
    end.
Proof.
  induction xs as [|x xs IH]; [done|].
  rewrite fmap_cons. cbn [list_items]. unfold mbind at 1. unfold M_bind.
  unfold name at 1. rewrite filter_cons. cbn [omap list_omap].
  destruct (globals s !! x) as [v|] eqn:Hx; rewrite ?Hx.
  - rewrite decide_False by done.
    unfold mbind at 1. unfold M_bind. rewrite IH.
    by destruct (head _).
  - by rewrite decide_True.
Qed.

(** Property X5. The statement [movies = [toy_story, ..., gone_girl]] on any
    state: if one of the six names is unbound the statement raises NameError
    for the first such name in the order written; otherwise it binds [movies]
    to the list of the values the names have at that moment, allocating
    nothing and calling nothing. *)
Theorem movies_statement_outcome (s : state) :
  movies s =
    match head (filter (λ x, globals s !! x = None) Movie_names) with
    | Some x => Raise (NameError x)
    | None =>
        Ok (tt, mkState
                  (<["movies" :=
                       VList (omap (λ x, globals s !! x) Movie_names)]>
                     (globals s))
                  (heap s) (trace s))
    end.
Proof.
  change movies with (assign "movies" (list_display (name <$> Movie_names))).
  unfold assign, list_display. unfold mbind at 1 2. unfold M_bind.
  rewrite list_items_names_outcome.
  by destruct (head _).
Qed.
